(** * picture_box: the pagination control and the mock picture list

    A shallow embedding of
      - [frontend/src/components/Pagination.tsx]: the effect that computes
        the window of page numbers, the click handlers of the two arrows
        and of the page links, and their class lists;
      - the mock provider [listPicturesOk] with its dataset [resolves].

    JavaScript numbers are modelled by [JS.number]: an integer, one of the
    two infinities, or NaN.  Every number the two files compute is of that
    form, except the quotient [total / page_size], which is rounded up by
    [Math.ceil] at once; it is kept as an exact rational ([JS.quotient]).
    Both operands of that division are 32-bit integers, so the double the
    engine computes lies strictly on the same side of every integer as the
    exact quotient, and its ceiling is the ceiling of the exact quotient.
    Negative zero compares and adds like zero and never reaches the window
    (its entries start at [left >= 1]), so it is identified with zero. *)

From Stdlib Require Import ZArith QArith Qround Lia.
From stdpp Require Import base numbers list list_numbers option strings gmap pretty.

Local Open Scope Z_scope.

(** ** JavaScript values and numbers *)

Module JS.

Inductive number : Type :=
  | Num (z : Z)
  | PosInf
  | NegInf
  | NaN.

(** A property read through optional chaining: [None] is [undefined]. *)
Definition value : Type := option Z.

Definition ToNumber (v : value) : number :=
  match v with
  | Some z => Num z
  | None => NaN
  end.

(** ToInt32: modulo 2^32, then into the signed range; NaN and the
    infinities give 0. *)
Definition ToInt32 (n : number) : Z :=
  match n with
  | Num z =>
      let m := z mod 2 ^ 32 in
      if 2 ^ 31 <=? m then m - 2 ^ 32 else m
  | _ => 0
  end.

(** [v | w] on 32-bit operands. *)
Definition bitor (v w : number) : Z := Z.lor (ToInt32 v) (ToInt32 w).

Definition neg (a : number) : number :=
  match a with
  | Num x => Num (- x)
  | PosInf => NegInf
  | NegInf => PosInf
  | NaN => NaN
  end.

Definition add (a b : number) : number :=
  match a, b with
  | NaN, _ | _, NaN => NaN
  | Num x, Num y => Num (x + y)
  | PosInf, NegInf | NegInf, PosInf => NaN
  | PosInf, _ | _, PosInf => PosInf
  | NegInf, _ | _, NegInf => NegInf
  end.

Definition sub (a b : number) : number := add a (neg b).

(** [a < b]; false as soon as one side is NaN. *)
Definition ltb (a b : number) : bool :=
  match a, b with
  | NaN, _ | _, NaN => false
  | Num x, Num y => x <? y
  | NegInf, NegInf => false
  | NegInf, _ => true
  | _, NegInf => false
  | PosInf, _ => false
  | Num _, PosInf => true
  end.

Definition eqb (a b : number) : bool :=
  match a, b with
  | Num x, Num y => x =? y
  | PosInf, PosInf | NegInf, NegInf => true
  | _, _ => false
  end.

Definition leb (a b : number) : bool := ltb a b || eqb a b.
Definition geb (a b : number) : bool := leb b a.
Definition gtb (a b : number) : bool := ltb b a.

(** [a === v] for a number and a property read through [?.]: never true
    of [undefined], nor of NaN. *)
Definition strict_eq (a : number) (v : value) : bool :=
  match v with
  | Some z => eqb a (Num z)
  | None => false
  end.

Definition Math_max (a b : number) : number :=
  match a, b with
  | NaN, _ | _, NaN => NaN
  | _, _ => if ltb a b then b else a
  end.

Definition Math_min (a b : number) : number :=
  match a, b with
  | NaN, _ | _, NaN => NaN
  | _, _ => if ltb b a then b else a
  end.

(** The result of [a / b] before it is rounded to an integer. *)
Inductive quotient : Type :=
  | Rat (q : Q)
  | QPosInf
  | QNegInf
  | QNaN.

(** [a / b] for two 32-bit integers: a zero divisor gives an infinity of
    the sign of [a], and [0 / 0] is NaN. *)
Definition div (a b : Z) : quotient :=
  if b =? 0 then
    if 0 <? a then QPosInf else if a <? 0 then QNegInf else QNaN
  else Rat (Qdiv (inject_Z a) (inject_Z b)).

Definition Math_ceil (x : quotient) : number :=
  match x with
  | Rat q => Num (Qceiling q)
  | QPosInf => PosInf
  | QNegInf => NegInf
  | QNaN => NaN
  end.

End JS.

Import JS.

(** ** Pagination.tsx *)

Module Pagination.

(** The descriptor the parent passes as [props.pagination]. *)
Record descriptor : Type := Descriptor {
  current : Z;
  page_size : Z;
  total : Z
}.

(** [props.pagination] may be undefined: every read goes through [?.]. *)
Record Props : Type := { pagination : option descriptor }.

(** The props of a parent that passes the descriptor
    [{current, page_size, total}]. *)
Definition props_of (current page_size total : Z) : Props :=
  {| pagination := Some (Descriptor current page_size total) |}.

(** The variables the component closes over, and the [pageArray] signal
    (undefined until the effect has run). *)
Record State : Type := {
  pageCount : number;
  beforeOffset : number;
  left : number;
  right : number;
  afterOffset : number;
  pageArray : option (list number)
}.

Definition initial : State :=
  {| pageCount := Num 0; beforeOffset := Num 0; left := Num 0;
     right := Num 0; afterOffset := Num 0; pageArray := None |}.

(** [props.pagination?.f] *)
Definition field (f : descriptor -> Z) (props : Props) : value :=
  f <$> pagination props.

(** The three locals of the effect: [props.pagination?.f | 0]. *)
Definition local (f : descriptor -> Z) (props : Props) : Z :=
  bitor (ToNumber (field f props)) (Num 0).

(** [for (let i = left; i <= right; i++) pageArray.push(i)]: one unit of
    fuel per test of the loop condition. *)
Fixpoint for_push (fuel : nat) (i right : number) (pageArray : list number)
  : option (list number) :=
  match fuel with
  | O => None
  | S fuel' =>
      if leb i right
      then for_push fuel' (add i (Num 1)) right (pageArray ++ [i])
      else Some pageArray
  end.

(** The body of [createEffect]: every closed-over variable is assigned,
    then the signal is set. *)
Definition createEffect (fuel : nat) (props : Props) (st : State)
  : option State :=
  let total := local total props in
  let page_size := local page_size props in
  let current := local current props in
  let pageCount := Math_ceil (div total page_size) in
  let beforeOffset := sub (Num current) (Num 5) in
  let left := Math_max (Num 1) beforeOffset in
  let right := Math_min (add (Num current) (Num 4)) pageCount in
  let afterOffset := sub (sub pageCount (Num current)) (Num 5) in
  let right :=
    if ltb beforeOffset (Num 0)
    then Math_min pageCount (sub right beforeOffset)
    else right in
  let left :=
    if ltb afterOffset (Num 0)
    then Math_max (Num 1) (add afterOffset left)
    else left in
  match for_push fuel left right [] with
  | None => None
  | Some arr =>
      Some {| pageCount := pageCount; beforeOffset := beforeOffset;
              left := left; right := right; afterOffset := afterOffset;
              pageArray := Some arr |}
  end.

(** The effect run to completion. *)
Definition runs (props : Props) (st st' : State) : Prop :=
  exists fuel, createEffect fuel props st = Some st'.

(** The second argument of [props.pageSetter]: a new value or an updater. *)
Inductive setter_arg : Type :=
  | Val (v : number)
  | Fn (f : Z -> Z).

(** A call [props.pageSetter(path, arg)]. *)
Inductive call : Type :=
  | pageSetter (path : string) (arg : setter_arg).

(** What the parent's store setter does with a call on the path
    ["current"]: the field is replaced, or updated from its old value. *)
Definition apply_call (c : call) (d : descriptor) : descriptor :=
  match c with
  | pageSetter path arg =>
      if String.eqb path "current" then
        match arg with
        | Val (Num v) => Descriptor v (page_size d) (total d)
        | Val _ => d
        | Fn f => Descriptor (f (current d)) (page_size d) (total d)
        end
      else d
  end.

(** The previous arrow: [if (props.pagination?.current <= 1) return;]. *)
Definition prev_onClick (props : Props) : option call :=
  if leb (ToNumber (field current props)) (Num 1) then None
  else Some (pageSetter "current" (Fn (fun p => p - 1))).

(** The next arrow reads the [pageCount] the effect left behind. *)
Definition next_onClick (st : State) (props : Props) : option call :=
  if geb (ToNumber (field current props)) (pageCount st) then None
  else Some (pageSetter "current" (Fn (fun p => p + 1))).

(** A page link. *)
Definition item_onClick (item : number) : option call :=
  Some (pageSetter "current" (Val item)).

(** A [classList] object, key by key; a key is on the element while its
    value is true. *)
Definition applied (classList : list (string * bool)) : list string :=
  (filter (fun kv => kv.2 = true) classList).*1.

(** The [classList] of the previous arrow. *)
Definition prev_classList (props : Props) : list (string * bool) :=
  [("fill-gray-200", leb (ToNumber (field current props)) (Num 1));
   ("hover:fill-blue-500", gtb (ToNumber (field current props)) (Num 1));
   ("fill-gray-600", gtb (ToNumber (field current props)) (Num 1))].

(** The [classList] of a page link. *)
Definition item_classList (item : number) (props : Props) : list (string * bool) :=
  [("text-blue-500", strict_eq item (field current props));
   ("text-gray-600 hover:text-blue-500",
    negb (strict_eq item (field current props)))].

(** The [classList] of the next arrow. *)
Definition next_classList (st : State) (props : Props) : list (string * bool) :=
  [("fill-gray-200", geb (ToNumber (field current props)) (pageCount st));
   ("hover:fill-blue-500", ltb (ToNumber (field current props)) (pageCount st));
   ("fill-gray-600", ltb (ToNumber (field current props)) (pageCount st))].

(** The [classList] of the next arrow as first rendered.  The markup is
    evaluated when the component function runs and the effect only after
    it, so [pageCount] still has the value of its declaration,
    [let pageCount = 0]; nothing re-evaluates the [classList] when the
    effect assigns the variable, which is no signal. *)
Definition next_classList_first_render (props : Props) : list (string * bool) :=
  next_classList initial props.

(** The links [<For each={pageArray()}>] draws: each item with the classes
    on its [span]. *)
Definition links (st : State) (props : Props) : list (number * list string) :=
  (fun item => (item, applied (item_classList item props)))
    <$> default [] (pageArray st).

(** The descriptor of the parent after a click: the call, if one was made,
    goes through its setter. *)
Definition after_click (c : option call) (d : descriptor) : descriptor :=
  match c with
  | Some c => apply_call c d
  | None => d
  end.

End Pagination.

(** ** The mock picture provider *)

(** [ListResponse<T>] of [models]: a page of items and its descriptor. *)
Module ListResponse.
Record t (T : Type) : Type := Build {
  list : Datatypes.list T;
  pagination : Pagination.descriptor
}.
Arguments Build {T} _ _.
Arguments list {T} _.
Arguments pagination {T} _.
End ListResponse.

(** The four image URLs the bundler resolves the imports to.  They are
    taken as given; they are assumed free of quotes and backslashes, so
    that [JSON.parse] of the template literal yields the object written
    in it. *)
Class Assets : Type := {
  m : string;
  origin : string;
  s : string;
  xs : string
}.

(** The URLs a development server hands out for the four images. *)
Definition dev_assets : Assets :=
  {| m := "/src/statics/images/m.webp";
     origin := "/src/statics/images/origin.jpg";
     s := "/src/statics/images/s.webp";
     xs := "/src/statics/images/xs.webp" |}.

Module Mock.

Definition partitionsOk : list string := ["default"; "avatar"; "cover"].

(** [JSON.parse] of a flat object literal with string values: the members
    are entered from left to right, a repeated key keeps the last value. *)
Definition JSON_parse (members : list (string * string)) : gmap string string :=
  foldl (fun obj kv => <[kv.1 := kv.2]> obj) ∅ members.

Section Dataset.
Context `{!Assets}.

(** The object pushed at iteration [i]. *)
Definition obj (i : nat) : gmap string string :=
  JSON_parse [("middle", m); ("origin", origin); ("s", s);
              (pretty i, xs); ("hello", xs); ("hel", xs)].

(** [resolves] after [n] iterations of the filling loop. *)
Fixpoint fill (n : nat) : list (gmap string string) :=
  match n with
  | O => []
  | S i => fill i ++ [obj i]
  end.

(** [Array.prototype.forEach]: the callback sees each value with its
    index, in order; [acc] is what the callback mutates. *)
Fixpoint forEach {T S : Type} (callback : S -> T -> Z -> S)
    (array : list T) (index : Z) (acc : S) : S :=
  match array with
  | [] => acc
  | value :: rest => forEach callback rest (index + 1) (callback acc value index)
  end.

(** The callback of [listPicturesOk].  Its [return] ends this call of the
    callback only, and no statement follows it. *)
Definition callback (start end_ : Z)
    (list : list (gmap string string)) (value : gmap string string) (index : Z)
  : Datatypes.list (gmap string string) :=
  let list :=
    if (start <=? index) && (index <? end_) then list ++ [value] else list in
  if end_ <? index then list else list.

(** [listPicturesOk] over a dataset of [length] objects.  [current] is an
    integer; the products and sums are exact over [Z], and where a double
    would round them (beyond 2^53) every index of the dataset fails the
    test either way. *)
Definition listPicturesOk_of (length : nat) (current : Z)
  : ListResponse.t (gmap string string) :=
  let resolves := fill length in
  let start := (current - 1) * 10 in
  let end_ := start + 10 in
  let list := forEach (callback start end_) resolves 0 [] in
  ListResponse.Build list
    (Pagination.Descriptor current 10 (Z.of_nat length)).

(** The module as written: [const length = 54]. *)
Definition length : nat := 54.
Definition resolves : list (gmap string string) := fill length.
Definition listPicturesOk (current : Z) : ListResponse.t (gmap string string) :=
  listPicturesOk_of length current.

End Dataset.

End Mock.

(** ** Decimal keys *)

(** The strings a template literal makes of a non-negative integer:
    digits only. *)
Definition is_digit (a : Ascii.ascii) : bool :=
  let code := Ascii.nat_of_ascii a in
  (48 <=? code)%nat && (code <=? 57)%nat.

Fixpoint decimal (s : string) : bool :=
  match s with
  | EmptyString => true
  | String a s' => is_digit a && decimal s'
  end.

(** ** The specification's own wording *)

Module Spec.

(** [ceil(a / b)] over the integers, for [b <> 0]. *)
Definition ceil_quot (a b : Z) : Z := - ((- a) / b).

(** Steps 1 to 6 of the page window algorithm: the two edges. *)
Definition edges (current pageCount : Z) : Z * Z :=
  let beforeOffset := current - 5 in
  let left := Z.max 1 beforeOffset in
  let right := Z.min (current + 4) pageCount in
  let afterOffset := pageCount - current - 5 in
  let right :=
    if bool_decide (beforeOffset < 0)
    then Z.min pageCount (right - beforeOffset) else right in
  let left :=
    if bool_decide (afterOffset < 0)
    then Z.max 1 (afterOffset + left) else left in
  (left, right).

(** Step 7: every integer from [left] to [right], ascending. *)
Definition window (current page_size total : Z) : list Z :=
  let lr := edges current (ceil_quot total page_size) in
  seqZ lr.1 (lr.2 - lr.1 + 1).

(** The items of [l] whose 0-based index lies in [start <= index < end],
    in the order of [l]. *)
Definition items_between {T : Type} (start end_ : Z) (l : list T) : list T :=
  snd <$> filter (fun iv => start <= iv.1 < end_)
                 (imap (fun i v => (Z.of_nat i, v)) l).

End Spec.

(** ** Numbers *)

Section Numbers.

Lemma ToInt32_range n : - 2 ^ 31 <= ToInt32 n < 2 ^ 31.
Proof.
  destruct n as [z | | |]; simpl; try lia.
  pose proof (Z.mod_pos_bound z (2 ^ 32) ltac:(lia)) as Hm.
  destruct (Z.leb_spec (2 ^ 31) (z mod 2 ^ 32)); lia.
Qed.

Lemma ToInt32_id z : - 2 ^ 31 <= z < 2 ^ 31 -> ToInt32 (Num z) = z.
Proof.
  intros Hz. simpl.
  destruct (Z.le_gt_cases 0 z) as [Hpos | Hneg].
  - rewrite Z.mod_small by lia.
    destruct (Z.leb_spec (2 ^ 31) z); lia.
  - replace (z mod 2 ^ 32) with (z + 2 ^ 32).
    + destruct (Z.leb_spec (2 ^ 31) (z + 2 ^ 32)); lia.
    + apply (Z.mod_unique_pos z (2 ^ 32) (-1)); lia.
Qed.

Lemma bitor_0 n : bitor n (Num 0) = ToInt32 n.
Proof. unfold bitor. change (ToInt32 (Num 0)) with 0. apply Z.lor_0_r. Qed.

Lemma add_Num a b : add (Num a) (Num b) = Num (a + b).
Proof. reflexivity. Qed.

Lemma sub_Num a b : sub (Num a) (Num b) = Num (a - b).
Proof. unfold sub. simpl. f_equal. Qed.

Lemma ltb_Num a b : ltb (Num a) (Num b) = bool_decide (a < b).
Proof.
  simpl. destruct (Z.ltb_spec a b).
  - by rewrite bool_decide_eq_true_2.
  - rewrite bool_decide_eq_false_2; [done | lia].
Qed.

Lemma leb_Num a b : leb (Num a) (Num b) = bool_decide (a <= b).
Proof.
  unfold leb. simpl.
  destruct (Z.ltb_spec a b), (Z.eqb_spec a b); simpl;
    (rewrite bool_decide_eq_true_2 by lia) || (rewrite bool_decide_eq_false_2 by lia);
    done.
Qed.

Lemma Math_max_Num a b : Math_max (Num a) (Num b) = Num (Z.max a b).
Proof. unfold Math_max. simpl. destruct (Z.ltb_spec a b); f_equal; lia. Qed.

Lemma Math_min_Num a b : Math_min (Num a) (Num b) = Num (Z.min a b).
Proof. unfold Math_min. simpl. destruct (Z.ltb_spec b a); f_equal; lia. Qed.

Lemma if_Num (c : bool) a b : (if c then Num a else Num b) = Num (if c then a else b).
Proof. by destruct c. Qed.

(** [Math.ceil] of the exact quotient is the integer ceiling. *)
Lemma Math_ceil_div a b :
  b <> 0 -> Math_ceil (div a b) = Num (Spec.ceil_quot a b).
Proof.
  intros Hb. unfold div. rewrite (proj2 (Z.eqb_neq b 0) Hb). simpl.
  f_equal. unfold Spec.ceil_quot, Qceiling, Qfloor, Qdiv, Qinv, Qmult, Qopp, inject_Z.
  destruct b as [| p | p]; [done | |]; simpl.
  - f_equal. f_equal; lia.
  - f_equal. change (Z.neg p) with (- Z.pos p).
    rewrite <- (Z.div_opp_opp (- a) (- Z.pos p)) by lia.
    f_equal; lia.
Qed.

(** The ceiling is the least integer whose multiple reaches [a]. *)
Lemma ceil_quot_spec a b n :
  0 < b -> (Spec.ceil_quot a b = n <-> b * (n - 1) < a <= b * n).
Proof.
  intros Hb. unfold Spec.ceil_quot.
  pose proof (Z.div_mod (- a) b ltac:(lia)) as Hdm.
  pose proof (Z.mod_pos_bound (- a) b Hb) as Hm.
  split; intros H; nia.
Qed.

End Numbers.

(** ** The loop of the effect *)

Section Loop.
Import Pagination.

Lemma for_push_Num n : forall l r acc fuel,
  Z.to_nat (r - l + 1) = n -> (n < fuel)%nat ->
  for_push fuel (Num l) (Num r) acc = Some (acc ++ (Num <$> seqZ l (r - l + 1))).
Proof.
  induction n as [| n IH]; intros l r acc fuel Hn Hfuel;
    (destruct fuel as [| fuel]; [lia |]); simpl for_push; rewrite leb_Num.
  - rewrite bool_decide_eq_false_2 by lia.
    rewrite seqZ_nil by lia. by rewrite app_nil_r.
  - rewrite bool_decide_eq_true_2 by lia.
    rewrite ?add_Num, (IH (l + 1) r) by lia.
    rewrite (seqZ_cons l) by lia.
    replace (Z.pred (r - l + 1)) with (r - (l + 1) + 1) by lia.
    replace (Z.succ l) with (l + 1) by lia.
    by rewrite <- app_assoc.
Qed.

Lemma for_push_stop fuel i r acc :
  leb i r = false -> for_push (S fuel) i r acc = Some acc.
Proof. intros H. simpl. by rewrite H. Qed.

(** More fuel never changes a result. *)
Lemma for_push_mono fuel : forall fuel' i r acc w,
  for_push fuel i r acc = Some w -> (fuel <= fuel')%nat ->
  for_push fuel' i r acc = Some w.
Proof.
  induction fuel as [| fuel IH]; intros fuel' i r acc w Hrun Hle; [done |].
  destruct fuel' as [| fuel']; [lia |].
  simpl in *. destruct (leb i r); [| done].
  apply IH; [done | lia].
Qed.

Lemma runs_det props st s1 s2 : runs props st s1 -> runs props st s2 -> s1 = s2.
Proof.
  intros [f1 H1] [f2 H2]. unfold createEffect in *.
  destruct (for_push f1 _ _ _) as [a1 |] eqn:E1; [| done].
  destruct (for_push f2 _ _ _) as [a2 |] eqn:E2; [| done].
  apply (for_push_mono _ (f1 `max` f2)%nat) in E1; [| lia].
  apply (for_push_mono _ (f1 `max` f2)%nat) in E2; [| lia].
  congruence.
Qed.

(** With a divisor other than zero the effect computes over the integers:
    it leaves the edges of the specification in [left] and [right] and
    their range in the signal. *)
Lemma createEffect_finite props st :
  let c := local current props in
  let P := Spec.ceil_quot (local total props) (local page_size props) in
  local page_size props <> 0 ->
  runs props st
    {| pageCount := Num P; beforeOffset := Num (c - 5);
       left := Num (Spec.edges c P).1; right := Num (Spec.edges c P).2;
       afterOffset := Num (P - c - 5);
       pageArray := Some (Num <$> Spec.window c (local page_size props)
                                    (local total props)) |}.
Proof.
  intros c P Hps. unfold Spec.window. fold P.
  destruct (Spec.edges c P) as [l r] eqn:He. simpl.
  exists (S (Z.to_nat (r - l + 1))). unfold createEffect.
  rewrite Math_ceil_div by done. fold c P.
  rewrite !sub_Num, !add_Num, Math_max_Num, Math_min_Num, !ltb_Num.
  rewrite !sub_Num, !add_Num, Math_max_Num, Math_min_Num, !if_Num.
  unfold Spec.edges in He. injection He as Hl Hr. rewrite Hl, Hr.
  by rewrite (for_push_Num (Z.to_nat (r - l + 1))) by lia.
Qed.

End Loop.

(** ** The effect on a zero page size *)

Section ZeroDivisor.
Import Pagination.

(** [total > 0] and [page_size = 0]: the page count is infinite and only
    [current] bounds the window. *)
Lemma createEffect_PosInf props st :
  let c := local current props in
  let l := Z.max 1 (c - 5) in
  let r := if bool_decide (c - 5 < 0) then 9 else c + 4 in
  local page_size props = 0 -> 0 < local total props ->
  runs props st
    {| pageCount := PosInf; beforeOffset := Num (c - 5);
       left := Num l; right := Num r; afterOffset := PosInf;
       pageArray := Some (Num <$> seqZ l (r - l + 1)) |}.
Proof.
  intros c l r Hps Ht. exists (S (Z.to_nat (r - l + 1))).
  unfold createEffect, div. rewrite Hps. fold c.
  rewrite (proj2 (Z.ltb_lt 0 _) Ht). cbn [Z.eqb Math_ceil].
  rewrite !sub_Num, !add_Num, Math_max_Num, ltb_Num. fold l.
  change (Math_min (Num (c + 4)) PosInf) with (Num (c + 4)).
  change (ltb (sub (sub PosInf (Num c)) (Num 5)) (Num 0)) with false.
  change (sub (sub PosInf (Num c)) (Num 5)) with PosInf.
  rewrite sub_Num. change (Math_min PosInf (Num ?x)) with (Num x).
  rewrite if_Num. cbv iota.
  replace (if bool_decide (c - 5 < 0) then c + 4 - (c - 5) else c + 4)
    with r by (subst r; case_bool_decide; lia).
  by rewrite (for_push_Num (Z.to_nat (r - l + 1))) by lia.
Qed.

(** [total <= 0] and [page_size = 0]: the page count is minus infinity or
    NaN, the loop condition fails at once. *)
Lemma createEffect_no_count props st :
  local page_size props = 0 -> local total props <= 0 ->
  exists st', runs props st st' /\ pageArray st' = Some [] /\
    pageCount st' = (if bool_decide (local total props < 0) then NegInf else NaN).
Proof.
  intros Hps Ht. unfold runs, createEffect, div. rewrite Hps.
  set (c := local current props). cbn [Z.eqb].
  rewrite (proj2 (Z.ltb_ge 0 _) Ht).
  destruct (Z.ltb_spec (local total props) 0) as [Hneg | Hzero].
  - rewrite (bool_decide_eq_true_2 _ Hneg). cbn [Math_ceil].
    rewrite !sub_Num, !add_Num, Math_max_Num, ltb_Num.
    case_bool_decide; (eexists; split; [by exists 1%nat | done]).
  - rewrite bool_decide_eq_false_2 by lia. cbn [Math_ceil].
    rewrite !sub_Num, !add_Num, Math_max_Num, ltb_Num.
    case_bool_decide; (eexists; split; [by exists 1%nat | done]).
Qed.

End ZeroDivisor.

(** ** The page window *)

Section PageWindow.
Import Pagination.

(** A field that already is a 32-bit integer is read unchanged. *)
Lemma local_int32 f d :
  - 2 ^ 31 <= f d < 2 ^ 31 -> local f {| pagination := Some d |} = f d.
Proof. intros H. unfold local. rewrite bitor_0. by apply ToInt32_id. Qed.

Lemma local_undefined f : local f {| pagination := None |} = 0.
Proof. reflexivity. Qed.

(** The edges over the integers: the left one is a page number, the right
    one stays within the page count, at most eleven numbers lie between
    them, and at least one does when there is a page at all. *)
Lemma edges_bounds c P :
  1 <= (Spec.edges c P).1 /\ (Spec.edges c P).2 <= P /\
  (Spec.edges c P).2 - (Spec.edges c P).1 + 1 <= 11 /\
  (1 <= P -> (Spec.edges c P).1 <= (Spec.edges c P).2).
Proof. unfold Spec.edges. repeat case_bool_decide; simpl; lia. Qed.

(** What the effect leaves behind, whatever the descriptor. *)
Lemma effect_outcome props st :
  exists st' l len,
    runs props st st' /\
    pageCount st' = Math_ceil (div (local total props) (local page_size props)) /\
    pageArray st' = Some (Num <$> seqZ l len) /\
    1 <= l /\ len <= 11 /\
    (0 < len -> left st' = Num l /\ right st' = Num (l + len - 1) /\
                leb (Num (l + len - 1)) (pageCount st') = true) /\
    (leb (Num 1) (pageCount st') = true -> 0 < len).
Proof.
  destruct (decide (local page_size props = 0)) as [Hz | Hnz].
  - destruct (decide (0 < local total props)) as [Hpos | Hle].
    + eexists _, _, _. split; [by apply createEffect_PosInf |].
      cbn [pageCount pageArray left right].
      unfold div. rewrite Hz, (proj2 (Z.ltb_lt 0 _) Hpos).
      cbn [Z.eqb Math_ceil].
      split; [done |]. split; [reflexivity |]. split; [lia |].
      split; [case_bool_decide; lia |].
      split; [| intros _; case_bool_decide; lia].
      intros _. split; [done |]. split; [f_equal; lia | done].
    + destruct (createEffect_no_count props st Hz ltac:(lia)) as (st' & Hrun & Harr & Hpc).
      exists st', 1, 0. rewrite Harr, Hpc. unfold div. rewrite Hz.
      rewrite (proj2 (Z.ltb_ge 0 _)) by lia. cbn [Z.eqb].
      repeat split; try done; try lia.
      * destruct (Z.ltb_spec (local total props) 0);
          [by rewrite bool_decide_eq_true_2 | by rewrite bool_decide_eq_false_2 by lia].
      * by case_bool_decide.
  - pose proof (createEffect_finite props st Hnz) as Hrun. cbv zeta in Hrun.
    pose proof (edges_bounds (local current props)
      (Spec.ceil_quot (local total props) (local page_size props))) as (H1 & H2 & H3 & H4).
    eexists _, _, _. split; [exact Hrun |].
    cbn [pageCount pageArray left right].
    rewrite Math_ceil_div by done. unfold Spec.window.
    repeat split; try done.
    + f_equal. lia.
    + rewrite leb_Num. apply bool_decide_eq_true_2. lia.
    + rewrite leb_Num. intros Hp%bool_decide_eq_true_1. lia.
Qed.

Lemma leb_Num_le a b x : a <= b -> leb (Num b) x = true -> leb (Num a) x = true.
Proof.
  destruct x as [z | | |]; try done.
  rewrite !leb_Num. intros Hab Hb%bool_decide_eq_true_1.
  apply bool_decide_eq_true_2. lia.
Qed.

(** No descriptor makes the window longer than eleven page numbers. *)
Lemma window_at_most_eleven props st :
  exists st' w, runs props st st' /\ pageArray st' = Some w /\ (length w <= 11)%nat.
Proof.
  destruct (effect_outcome props st) as (st' & l & len & Hrun & _ & Harr & _ & Hlen & _).
  exists st', (Num <$> seqZ l len). split; [done |]. split; [done |].
  rewrite length_fmap, length_seqZ. lia.
Qed.

(** Without a single item there is no page to show. *)
Lemma window_empty_without_items props st :
  local total props = 0 ->
  exists st', runs props st st' /\ pageArray st' = Some [].
Proof.
  intros Ht.
  destruct (effect_outcome props st)
    as (st' & l & len & Hrun & Hpc & Harr & Hl & _ & Hpos & _).
  exists st'. split; [done |]. rewrite Harr. f_equal.
  destruct (decide (0 < len)) as [Hlen | Hlen]; [| by rewrite seqZ_nil by lia].
  destruct (Hpos Hlen) as (_ & _ & Hle). exfalso.
  rewrite Hpc, Ht in Hle.
  destruct (decide (local page_size props = 0)) as [Hz | Hnz].
  - unfold div in Hle. by rewrite Hz in Hle.
  - rewrite Math_ceil_div in Hle by done.
    rewrite leb_Num in Hle. apply bool_decide_eq_true_1 in Hle.
    unfold Spec.ceil_quot in Hle. change (- 0) with 0 in Hle.
    rewrite Z.div_0_l in Hle by done. lia.
Qed.

(** The windows the specification lists for 54 items, 10 a page. *)
Example window_first_page :
  createEffect 7 (props_of 1 10 54) initial =
    Some {| pageCount := Num 6; beforeOffset := Num (-4); left := Num 1;
            right := Num 6; afterOffset := Num 0;
            pageArray := Some (Num <$> [1; 2; 3; 4; 5; 6]) |}.
Proof. reflexivity. Qed.

Example window_last_page :
  createEffect 7 (props_of 6 10 54) initial =
    Some {| pageCount := Num 6; beforeOffset := Num 1; left := Num 1;
            right := Num 6; afterOffset := Num (-5);
            pageArray := Some (Num <$> [1; 2; 3; 4; 5; 6]) |}.
Proof. reflexivity. Qed.

(** Near the start the window has nine numbers, in the middle ten. *)
Example window_near_start :
  pageArray <$> createEffect 12 (props_of 2 10 300) initial =
    Some (Some (Num <$> [1; 2; 3; 4; 5; 6; 7; 8; 9])).
Proof. reflexivity. Qed.

Example window_in_the_middle :
  pageArray <$> createEffect 12 (props_of 15 10 300) initial =
    Some (Some (Num <$> [10; 11; 12; 13; 14; 15; 16; 17; 18; 19])).
Proof. reflexivity. Qed.

(** Too little fuel: the loop has not finished. *)
Example window_out_of_fuel : createEffect 6 (props_of 1 10 54) initial = None.
Proof. reflexivity. Qed.

(** Without a descriptor both guards compare with [undefined] and fail:
    each arrow calls the setter. *)
Lemma arrows_without_descriptor st :
  prev_onClick {| pagination := None |} =
    Some (pageSetter "current" (Fn (fun p => p - 1))) /\
  next_onClick st {| pagination := None |} =
    Some (pageSetter "current" (Fn (fun p => p + 1))).
Proof.
  split; [done |]. unfold next_onClick, geb, leb. simpl.
  by destruct (pageCount st).
Qed.

(** C1 (the code departs from the claim).  The claim bounds the window by
    10 page numbers; on the last of eleven pages (110 items, 10 a page)
    the effect sets the signal to the eleven numbers 1 to 11. *)
Theorem window_last_of_eleven_pages :
  exists st',
    runs (props_of 11 10 110) initial st' /\
    pageArray st' = Some (Num <$> [1; 2; 3; 4; 5; 6; 7; 8; 9; 10; 11]) /\
    forall w, pageArray st' = Some w -> length w = 11%nat /\ ~ (length w <= 10)%nat.
Proof.
  eexists. split; [by exists 12%nat |].
  split; [reflexivity |].
  intros w [= <-]. simpl. lia.
Qed.

(** C2 (the claim fails beyond 32 bits).  The effect reads each field
    through [| 0].  With 2147483648 items, one a page, it computes on a
    total of -2147483648: the signal gets no page number, where the seven
    steps on the descriptor's own fields give 1 to 9. *)
Lemma window_differs_beyond_32_bits :
  exists st',
    runs (props_of 1 1 2147483648) initial st' /\
    pageArray st' = Some [] /\
    Spec.window 1 1 2147483648 = [1; 2; 3; 4; 5; 6; 7; 8; 9] /\
    pageArray st' <> Some (Num <$> Spec.window 1 1 2147483648).
Proof.
  eexists. split; [by exists 1%nat |].
  split; [reflexivity |]. split; [reflexivity |]. discriminate.
Qed.

(** C2, as amended.  For every descriptor whose three fields are 32-bit
    integers and whose page size is not zero, the window the effect stores
    in the signal is the list the seven steps of the specification give
    for the descriptor's [current], [page_size] and [total], and
    [pageCount] is [ceil(total / page_size)]. *)
Theorem window_equals_seven_steps d st :
  - 2 ^ 31 <= current d < 2 ^ 31 ->
  - 2 ^ 31 <= page_size d < 2 ^ 31 ->
  - 2 ^ 31 <= total d < 2 ^ 31 ->
  page_size d <> 0 ->
  exists st',
    runs {| pagination := Some d |} st st' /\
    pageCount st' = Num (Spec.ceil_quot (total d) (page_size d)) /\
    pageArray st' = Some (Num <$> Spec.window (current d) (page_size d) (total d)).
Proof.
  intros Hc Hp Ht Hnz.
  pose proof (createEffect_finite {| pagination := Some d |} st) as Hrun.
  cbv zeta in Hrun. rewrite !local_int32 in Hrun by done.
  eexists. split; [by apply Hrun |]. done.
Qed.

Lemma window_equals_seven_steps_witness :
  let d := Descriptor 3 10 54 in
  - 2 ^ 31 <= current d < 2 ^ 31 /\
  - 2 ^ 31 <= page_size d < 2 ^ 31 /\
  - 2 ^ 31 <= total d < 2 ^ 31 /\
  page_size d <> 0 /\
  exists st',
    runs {| pagination := Some d |} initial st' /\
    pageCount st' = Num (Spec.ceil_quot (total d) (page_size d)) /\
    pageArray st' = Some (Num <$> Spec.window (current d) (page_size d) (total d)).
Proof.
  intros d.
  assert (Hc : - 2 ^ 31 <= current d < 2 ^ 31) by (simpl; lia).
  assert (Hp : - 2 ^ 31 <= page_size d < 2 ^ 31) by (simpl; lia).
  assert (Ht : - 2 ^ 31 <= total d < 2 ^ 31) by (simpl; lia).
  assert (Hnz : page_size d <> 0) by (simpl; lia).
  split; [exact Hc |]. split; [exact Hp |]. split; [exact Ht |].
  split; [exact Hnz |].
  exact (window_equals_seven_steps d initial Hc Hp Ht Hnz).
Defined.

(** Over the variables of the effect: every entry of the window lies
    between 1 and the page count computed from them, and each entry is
    its predecessor plus one. *)
Lemma window_entries_within_count props st :
  exists st' w,
    runs props st st' /\
    pageArray st' = Some (Num <$> w) /\
    pageCount st' = Math_ceil (div (local total props) (local page_size props)) /\
    (forall n, n ∈ w -> 1 <= n /\ leb (Num n) (pageCount st') = true) /\
    (forall n, n ∈ w -> local page_size props <> 0 ->
       n <= Spec.ceil_quot (local total props) (local page_size props)) /\
    (forall i a b, w !! i = Some a -> w !! S i = Some b -> b = a + 1).
Proof.
  destruct (effect_outcome props st)
    as (st' & l & len & Hrun & Hpc & Harr & Hl & _ & Hpos & _).
  exists st', (seqZ l len).
  assert (Hin : forall n, n ∈ seqZ l len -> 1 <= n /\ leb (Num n) (pageCount st') = true).
  { intros n [Hn1 Hn2]%elem_of_seqZ. split; [lia |].
    destruct (Hpos ltac:(lia)) as (_ & _ & Hle).
    apply (leb_Num_le n (l + len - 1)); [lia | done]. }
  repeat split; try done; try (by apply Hin).
  - intros n Hn Hps. apply Hin in Hn as [_ Hn].
    rewrite Hpc, Math_ceil_div, leb_Num in Hn by done.
    by apply bool_decide_eq_true_1 in Hn.
  - intros i a b [-> _]%lookup_seqZ [-> _]%lookup_seqZ. lia.
Qed.

(** C4 (the claim fails beyond 32 bits).  With 54 items and a page size
    of 4294967297, read as 1 through [| 0], the window is 1 to 9 while
    [ceil(total / page_size)] on the descriptor's fields is 1. *)
Lemma window_exceeds_ceiling_beyond_32_bits :
  exists st',
    runs (props_of 1 4294967297 54) initial st' /\
    pageArray st' = Some (Num <$> [1; 2; 3; 4; 5; 6; 7; 8; 9]) /\
    Math_ceil (div 54 4294967297) = Num 1 /\
    Spec.ceil_quot 54 4294967297 = 1 /\
    leb (Num 9) (Math_ceil (div 54 4294967297)) = false /\
    ~ 9 <= Spec.ceil_quot 54 4294967297.
Proof.
  eexists. split; [by exists 10%nat |].
  split; [reflexivity |]. split; [reflexivity |]. split; [reflexivity |].
  split; [reflexivity |]. vm_compute. intros H. by apply H.
Qed.

(** C4, as amended.  For every descriptor whose [page_size] and [total]
    are 32-bit integers, every entry [n] of the window satisfies
    [1 <= n <= pageCount], where [pageCount] is
    [Math.ceil(total / page_size)] on the descriptor's fields (the integer
    ceiling when the page size is not zero), and each entry is its
    predecessor plus one. *)
Theorem window_pages_valid_on_descriptor d st :
  - 2 ^ 31 <= page_size d < 2 ^ 31 ->
  - 2 ^ 31 <= total d < 2 ^ 31 ->
  exists st' w,
    runs {| pagination := Some d |} st st' /\
    pageArray st' = Some (Num <$> w) /\
    pageCount st' = Math_ceil (div (total d) (page_size d)) /\
    (forall n, n ∈ w ->
       1 <= n /\ leb (Num n) (Math_ceil (div (total d) (page_size d))) = true) /\
    (forall n, n ∈ w -> page_size d <> 0 ->
       n <= Spec.ceil_quot (total d) (page_size d)) /\
    (forall i a b, w !! i = Some a -> w !! S i = Some b -> b = a + 1).
Proof.
  intros Hp Ht.
  destruct (window_entries_within_count {| pagination := Some d |} st)
    as (st' & w & Hrun & Harr & Hpc & Hin & Hceil & Hstep).
  rewrite !local_int32 in Hpc, Hceil by done.
  exists st', w. repeat split; try done.
  - by apply Hin.
  - rewrite <- Hpc. by apply Hin.
Qed.

Lemma window_pages_valid_on_descriptor_witness :
  let d := Descriptor 28 10 300 in
  - 2 ^ 31 <= page_size d < 2 ^ 31 /\
  - 2 ^ 31 <= total d < 2 ^ 31 /\
  exists st' w,
    runs {| pagination := Some d |} initial st' /\
    pageArray st' = Some (Num <$> w) /\
    pageCount st' = Math_ceil (div (total d) (page_size d)) /\
    (forall n, n ∈ w ->
       1 <= n /\ leb (Num n) (Math_ceil (div (total d) (page_size d))) = true) /\
    (forall n, n ∈ w -> page_size d <> 0 ->
       n <= Spec.ceil_quot (total d) (page_size d)) /\
    (forall i a b, w !! i = Some a -> w !! S i = Some b -> b = a + 1).
Proof.
  intros d.
  assert (Hp : - 2 ^ 31 <= page_size d < 2 ^ 31) by (simpl; lia).
  assert (Ht : - 2 ^ 31 <= total d < 2 ^ 31) by (simpl; lia).
  split; [exact Hp |]. split; [exact Ht |].
  exact (window_pages_valid_on_descriptor d initial Hp Ht).
Defined.



(** C10.  Whenever the page count is at least 1, the effect ends with
    [left <= right] and the window holds at least one page number,
    whatever [current] is. *)
Theorem window_nonempty props st :
  leb (Num 1) (Math_ceil (div (local total props) (local page_size props))) = true ->
  exists st' w,
    runs props st st' /\ pageArray st' = Some w /\ w <> [] /\
    leb (left st') (right st') = true.
Proof.
  intros Hone.
  destruct (effect_outcome props st)
    as (st' & l & len & Hrun & Hpc & Harr & _ & _ & Hpos & Hlen).
  rewrite <- Hpc in Hone. specialize (Hlen Hone).
  destruct (Hpos Hlen) as (Hleft & Hright & _).
  exists st', (Num <$> seqZ l len). repeat split; try done.
  - rewrite seqZ_cons by done. done.
  - rewrite Hleft, Hright, leb_Num. apply bool_decide_eq_true_2. lia.
Qed.

Lemma window_nonempty_witness :
  leb (Num 1) (Math_ceil (div (local total (props_of (-7) 10 54))
                              (local page_size (props_of (-7) 10 54)))) = true /\
  exists st' w,
    runs (props_of (-7) 10 54) initial st' /\ pageArray st' = Some w /\ w <> [] /\
    leb (left st') (right st') = true.
Proof.
  split; [reflexivity |].
  apply window_nonempty. reflexivity.
Defined.

End PageWindow.

(** ** The picture list *)

Section PictureList.

Lemma callback_push start end_ (acc : list (gmap string string)) value index :
  Mock.callback start end_ acc value index =
    if bool_decide (start <= index < end_) then acc ++ [value] else acc.
Proof.
  unfold Mock.callback. destruct (end_ <? index);
    destruct (Z.leb_spec start index), (Z.ltb_spec index end_); simpl;
    (rewrite bool_decide_eq_true_2 by lia) || (rewrite bool_decide_eq_false_2 by lia);
    done.
Qed.

(** The traversal keeps what the index filter keeps, [g] naming the index
    of each position. *)
Lemma forEach_callback start end_ (l : list (gmap string string)) :
  forall (g : nat -> Z) index acc,
    (forall i, g i = index + Z.of_nat i) ->
    Mock.forEach (Mock.callback start end_) l index acc =
      acc ++ (snd <$> filter (fun iv => start <= iv.1 < end_)
                             (imap (fun i v => (g i, v)) l)).
Proof.
  induction l as [| v l IH]; intros g index acc Hg; simpl Mock.forEach.
  - by rewrite app_nil_r.
  - rewrite imap_cons, callback_push.
    rewrite (IH (g ∘ S) (index + 1)) by (intros i; unfold compose; rewrite Hg; lia).
    assert (H0 : g 0%nat = index) by (rewrite Hg; lia).
    case_bool_decide as Hin.
    + rewrite filter_cons_True by (simpl; lia).
      by rewrite <- app_assoc.
    + by rewrite filter_cons_False by (simpl; lia).
Qed.

(** The index filter cuts a segment out of the list. *)
Lemma filter_segment {T : Type} start end_ (l : list T) :
  forall (g : nat -> Z) index,
    (forall i, g i = index + Z.of_nat i) ->
    snd <$> filter (fun iv => start <= iv.1 < end_) (imap (fun i v => (g i, v)) l) =
      take (Z.to_nat (end_ - Z.max start index)) (drop (Z.to_nat (start - index)) l).
Proof.
  induction l as [| v l IH]; intros g index Hg.
  - by rewrite drop_nil, take_nil.
  - rewrite imap_cons.
    assert (H0 : g 0%nat = index) by (rewrite Hg; lia).
    specialize (IH (g ∘ S) (index + 1)
      ltac:(intros i; unfold compose; rewrite Hg; lia)).
    change ((fun i v => (g i, v)) ∘ S) with (fun i (v : T) => ((g ∘ S) i, v)).
    destruct (decide (start <= index < end_)) as [Hin | Hout].
    + rewrite filter_cons_True by (simpl; lia).
      rewrite fmap_cons, IH.
      replace (Z.to_nat (start - index)) with 0%nat by lia.
      replace (Z.to_nat (start - (index + 1))) with 0%nat by lia.
      rewrite !drop_0.
      replace (Z.to_nat (end_ - start `max` index))
        with (S (Z.to_nat (end_ - start `max` (index + 1)))) by lia.
      done.
    + rewrite filter_cons_False by (simpl; lia). rewrite IH.
      destruct (decide (index < start)) as [Hlt | Hge].
      * replace (Z.to_nat (start - index))
          with (S (Z.to_nat (start - (index + 1)))) by lia.
        simpl drop. f_equal. lia.
      * replace (Z.to_nat (end_ - start `max` (index + 1))) with 0%nat by lia.
        replace (Z.to_nat (end_ - start `max` index)) with 0%nat by lia.
        done.
Qed.

Lemma items_between_segment {T : Type} start end_ (l : list T) :
  Spec.items_between start end_ l =
    take (Z.to_nat (end_ - Z.max start 0)) (drop (Z.to_nat start) l).
Proof.
  unfold Spec.items_between.
  rewrite (filter_segment start end_ l Z.of_nat 0) by (intros; lia).
  by rewrite Z.sub_0_r.
Qed.

Context `{!Assets}.

Lemma length_fill n : length (Mock.fill n) = n.
Proof. induction n as [| n IH]; [done |]. simpl. rewrite length_app, IH. simpl. lia. Qed.

Lemma lookup_fill n i : (i < n)%nat -> Mock.fill n !! i = Some (Mock.obj i).
Proof.
  induction n as [| n IH]; [lia |]. intros Hi. simpl.
  destruct (decide (i = n)) as [-> | Hne].
  - rewrite lookup_app_r by (rewrite length_fill; lia).
    by rewrite length_fill, Nat.sub_diag.
  - rewrite lookup_app_l by (rewrite length_fill; lia). apply IH. lia.
Qed.

(** The list of a page, for any size of the dataset. *)
Lemma listPicturesOk_of_list n current :
  ListResponse.list (Mock.listPicturesOk_of n current) =
    Spec.items_between ((current - 1) * 10) ((current - 1) * 10 + 10) (Mock.fill n).
Proof.
  unfold Mock.listPicturesOk_of, Spec.items_between. simpl.
  by rewrite (forEach_callback _ _ _ Z.of_nat 0) by (intros; lia).
Qed.

Lemma listPicturesOk_list current :
  ListResponse.list (Mock.listPicturesOk current) =
    take (Z.to_nat ((current - 1) * 10 + 10 - Z.max ((current - 1) * 10) 0))
         (drop (Z.to_nat ((current - 1) * 10)) Mock.resolves).
Proof.
  unfold Mock.listPicturesOk, Mock.resolves.
  by rewrite listPicturesOk_of_list, items_between_segment.
Qed.

Lemma listPicturesOk_length current :
  length (ListResponse.list (Mock.listPicturesOk current)) =
    (Z.to_nat ((current - 1) * 10 + 10 - Z.max ((current - 1) * 10) 0)
       `min` (54 - Z.to_nat ((current - 1) * 10)))%nat.
Proof.
  rewrite listPicturesOk_list, length_take, length_drop.
  unfold Mock.resolves. by rewrite length_fill.
Qed.

(** C3.  For every [current], with [start = (current - 1) * 10] and
    [end = start + 10], the list returned is made of the items of the
    dataset whose index lies in [start <= index < end], in the order of
    the dataset (the segment of [end - max(start, 0)] items that begins at
    index [start]); it is empty when [start >= total]; and the descriptor
    returned is [{current, page_size: 10, total: 54}] for the [current]
    that was asked. *)
Theorem listPicturesOk_returns_index_range current :
  let start := (current - 1) * 10 in
  let end_ := start + 10 in
  let r := Mock.listPicturesOk current in
  ListResponse.list r = Spec.items_between start end_ Mock.resolves /\
  ListResponse.list r =
    take (Z.to_nat (end_ - Z.max start 0)) (drop (Z.to_nat start) Mock.resolves) /\
  (Z.of_nat Mock.length <= start -> ListResponse.list r = []) /\
  ListResponse.pagination r = Pagination.Descriptor current 10 54.
Proof.
  intros start end_ r. subst r.
  split; [apply listPicturesOk_of_list |].
  split; [apply listPicturesOk_list |].
  split; [| done].
  intros Hstart. apply length_zero_iff_nil.
  rewrite listPicturesOk_length. unfold Mock.length in Hstart. lia.
Qed.

(** C5.  On the dataset of 54 items (6 pages of 10): a page [current] in
    1..6 has 10 items, except the last, which has [54 - 10 * (6 - 1)];
    page 1 has 10 items, page 6 has the 4 items of indices 50 to 53, and
    page 7 has none. *)
Theorem listPicturesOk_page_lengths current :
  1 <= current <= 6 ->
  length (ListResponse.list (Mock.listPicturesOk current)) =
    (if bool_decide (current = 6) then Z.to_nat (54 - 10 * (6 - 1)) else 10%nat) /\
  length (ListResponse.list (Mock.listPicturesOk 1)) = 10%nat /\
  length (ListResponse.list (Mock.listPicturesOk 6)) = 4%nat /\
  ListResponse.list (Mock.listPicturesOk 6) =
    [Mock.obj 50; Mock.obj 51; Mock.obj 52; Mock.obj 53] /\
  (forall k, ListResponse.list (Mock.listPicturesOk 6) !! k =
             if bool_decide (k < 4)%nat then Mock.resolves !! (50 + k)%nat else None) /\
  length (ListResponse.list (Mock.listPicturesOk 7)) = 0%nat.
Proof.
  intros Hcur.
  assert (Hsix : ListResponse.list (Mock.listPicturesOk 6) =
                 [Mock.obj 50; Mock.obj 51; Mock.obj 52; Mock.obj 53]).
  { rewrite listPicturesOk_list.
    change (Z.to_nat ((6 - 1) * 10 + 10 - Z.max ((6 - 1) * 10) 0)) with 10%nat.
    change (Z.to_nat ((6 - 1) * 10)) with 50%nat.
    apply list_eq. intros k.
    destruct (decide (k < 4)%nat) as [Hk | Hk].
    - rewrite lookup_take_lt by lia. rewrite lookup_drop.
      unfold Mock.resolves, Mock.length. rewrite lookup_fill by lia.
      by do 4 (destruct k as [| k]; [done |]); lia.
    - transitivity (@None (gmap string string)); [| symmetry];
        apply lookup_ge_None; [| simpl; lia].
      rewrite length_take, length_drop. unfold Mock.resolves, Mock.length.
      rewrite length_fill. lia. }
  split; [rewrite listPicturesOk_length; case_bool_decide; lia |].
  split; [rewrite listPicturesOk_length; lia |].
  split; [rewrite listPicturesOk_length; lia |].
  split; [done |].
  split; [| rewrite listPicturesOk_length; lia].
  intros k. rewrite Hsix. case_bool_decide as Hk.
  - unfold Mock.resolves, Mock.length. rewrite lookup_fill by lia.
    by do 4 (destruct k as [| k]; [done |]); lia.
  - apply lookup_ge_None. simpl. lia.
Qed.

Lemma listPicturesOk_nonpositive current :
  current <= 0 -> ListResponse.list (Mock.listPicturesOk current) = [].
Proof.
  intros Hcur. apply length_zero_iff_nil. rewrite listPicturesOk_length. lia.
Qed.

(** C6, as amended.  For [current <= 0] every index of the dataset
    satisfies [index >= start], so the list is made of the items from
    index 0 up to [end]; as [end <= 0] there is none: the list is empty,
    and a prefix of the first page only in that sense. *)
Theorem listPicturesOk_nonpositive_degenerate current :
  current <= 0 ->
  let start := (current - 1) * 10 in
  let end_ := start + 10 in
  (forall index : nat, start <= Z.of_nat index) /\
  ListResponse.list (Mock.listPicturesOk current) =
    take (Z.to_nat end_) Mock.resolves /\
  end_ <= 0 /\
  ListResponse.list (Mock.listPicturesOk current) = [] /\
  ListResponse.list (Mock.listPicturesOk current)
    `prefix_of` ListResponse.list (Mock.listPicturesOk 1).
Proof.
  intros Hcur start end_. subst start end_.
  split; [lia |].
  rewrite (listPicturesOk_nonpositive current Hcur).
  split; [by replace (Z.to_nat ((current - 1) * 10 + 10)) with 0%nat by lia |].
  split; [lia |]. split; [done |]. apply prefix_nil.
Qed.

(** C9.  For [current <= 0] the list is empty, and the descriptor still
    carries the [current] that was asked. *)
Theorem listPicturesOk_nonpositive_empty current :
  current <= 0 ->
  ListResponse.list (Mock.listPicturesOk current) = [] /\
  ListResponse.pagination (Mock.listPicturesOk current) =
    Pagination.Descriptor current 10 54.
Proof. intros Hcur. split; [by apply listPicturesOk_nonpositive | done]. Qed.

(** C7.  Without items ([total = 0]) the window is empty for every
    [current], the page count being 0 when the page size is not zero; and
    over an empty dataset page 1 is empty. *)
Theorem nothing_without_items current page_size st :
  (exists st',
     Pagination.runs (Pagination.props_of current page_size 0) st st' /\
     Pagination.pageArray st' = Some [] /\
     (Pagination.local Pagination.page_size
        (Pagination.props_of current page_size 0) <> 0 ->
      Pagination.pageCount st' = Num 0)) /\
  ListResponse.list (Mock.listPicturesOk_of 0 1) = [].
Proof.
  split; [| done].
  destruct (window_empty_without_items (Pagination.props_of current page_size 0) st)
    as (st' & Hrun & Harr); [done |].
  exists st'. split; [done |]. split; [done |].
  intros Hps.
  pose proof (createEffect_finite _ st Hps) as Hfin. cbv zeta in Hfin.
  by rewrite (runs_det _ _ _ _ Hrun Hfin).
Qed.

End PictureList.

(** ** Concrete pages *)

Section Concrete.

(** C6 (the claim fails).  Page 0 is empty while page 1 holds ten items:
    the two lists have no item in common. *)
Lemma page_zero_shares_nothing_with_page_one :
  ListResponse.list (@Mock.listPicturesOk dev_assets 0) = [] /\
  length (ListResponse.list (@Mock.listPicturesOk dev_assets 1)) = 10%nat /\
  ~ (exists x, x ∈ ListResponse.list (@Mock.listPicturesOk dev_assets 0) /\
               x ∈ ListResponse.list (@Mock.listPicturesOk dev_assets 1)).
Proof.
  split; [by apply listPicturesOk_nonpositive |].
  split; [by rewrite listPicturesOk_length |].
  rewrite listPicturesOk_nonpositive by done.
  intros (x & Hx & _). by apply elem_of_nil in Hx.
Qed.

Lemma listPicturesOk_page_lengths_witness :
  1 <= 3 <= 6 /\
  length (ListResponse.list (@Mock.listPicturesOk dev_assets 3)) = 10%nat.
Proof.
  split; [lia |].
  exact (proj1 (@listPicturesOk_page_lengths dev_assets 3 ltac:(lia))).
Defined.

Lemma listPicturesOk_nonpositive_degenerate_witness :
  0 <= 0 /\
  ListResponse.list (@Mock.listPicturesOk dev_assets 0) = [].
Proof.
  split; [lia |].
  exact (proj1 (proj2 (proj2 (proj2
    (@listPicturesOk_nonpositive_degenerate dev_assets 0 ltac:(lia)))))).
Defined.

Lemma listPicturesOk_nonpositive_empty_witness :
  -3 <= 0 /\
  ListResponse.list (@Mock.listPicturesOk dev_assets (-3)) = [] /\
  ListResponse.pagination (@Mock.listPicturesOk dev_assets (-3)) =
    Pagination.Descriptor (-3) 10 54.
Proof.
  split; [lia |].
  apply (@listPicturesOk_nonpositive_empty dev_assets (-3)). lia.
Defined.

End Concrete.

(** ** The shape of the window *)

Section WindowShape.
Import Pagination.

Lemma for_push_grows fuel : forall i r acc w,
  for_push fuel i r acc = Some w -> (length acc <= length w)%nat.
Proof.
  induction fuel as [| fuel IH]; intros i r acc w Hrun; [done |].
  simpl in Hrun. destruct (leb i r).
  - apply IH in Hrun. rewrite length_app in Hrun. simpl in Hrun. lia.
  - by injection Hrun as ->.
Qed.

(** One test of the condition per number pushed, and one to leave. *)
Lemma for_push_enough fuel : forall i r acc w fuel',
  for_push fuel i r acc = Some w ->
  (length w - length acc < fuel')%nat ->
  for_push fuel' i r acc = Some w.
Proof.
  induction fuel as [| fuel IH]; intros i r acc w fuel' Hrun Hlen; [done |].
  destruct fuel' as [| fuel']; [lia |].
  simpl in *. destruct (leb i r); [| done].
  pose proof (for_push_grows _ _ _ _ _ Hrun) as Hge.
  apply (IH _ _ _ _ fuel' Hrun).
  rewrite length_app in *. simpl in *. lia.
Qed.

(** The effect ends for every descriptor, after at most twelve tests of
    the loop condition, with at most eleven page numbers in the signal. *)
Theorem effect_within_twelve_tests props st :
  exists st' arr,
    createEffect 12 props st = Some st' /\
    pageArray st' = Some arr /\ (length arr <= 11)%nat.
Proof.
  destruct (effect_outcome props st)
    as (st' & l & len & [fuel Hrun] & _ & Harr & _ & Hlen & _).
  exists st', (Num <$> seqZ l len).
  assert (Hshort : (length (Num <$> seqZ l len) <= 11)%nat)
    by (rewrite length_fmap, length_seqZ; lia).
  split; [| done].
  unfold createEffect in *.
  destruct (for_push fuel _ _ _) as [arr |] eqn:Hloop; [| done].
  assert (arr = Num <$> seqZ l len) as ->
    by (injection Hrun as <-; simpl in Harr; congruence).
  by rewrite (for_push_enough _ _ _ _ _ 12%nat Hloop) by (simpl; lia).
Qed.

(** The two edges, case by case: near the start, in the middle, near the
    end. *)
Lemma edges_closed_form c P :
  Spec.edges c P =
    if bool_decide (c <= 5) then (1, Z.min P 9)
    else if bool_decide (c + 5 <= P) then (c - 5, c + 4)
    else (Z.max 1 (P - 10), Z.min (c + 4) P).
Proof. unfold Spec.edges. repeat case_bool_decide; f_equal; lia. Qed.

(** The state the effect leaves for a page size other than zero. *)
Lemma runs_finite props st st' :
  local page_size props <> 0 ->
  runs props st st' ->
  let c := local current props in
  let P := Spec.ceil_quot (local total props) (local page_size props) in
  pageCount st' = Num P /\
  left st' = Num (Spec.edges c P).1 /\
  right st' = Num (Spec.edges c P).2 /\
  pageArray st' =
    Some (Num <$> seqZ (Spec.edges c P).1
                       ((Spec.edges c P).2 - (Spec.edges c P).1 + 1)).
Proof.
  intros Hps Hrun c P.
  pose proof (createEffect_finite props st Hps) as Hfin. cbv zeta in Hfin.
  by rewrite (runs_det _ _ _ _ Hrun Hfin).
Qed.

(** A page count that is a number comes from a page size other than zero. *)
Lemma runs_Num_count props st st' P :
  runs props st st' -> pageCount st' = Num P ->
  local page_size props <> 0 /\
  P = Spec.ceil_quot (local total props) (local page_size props).
Proof.
  intros Hrun HP.
  destruct (decide (local page_size props = 0)) as [Hz | Hnz].
  - exfalso. destruct (decide (0 < local total props)) as [Hpos | Hle].
    + pose proof (createEffect_PosInf props st Hz Hpos) as Hinf. cbv zeta in Hinf.
      rewrite (runs_det _ _ _ _ Hrun Hinf) in HP. done.
    + destruct (createEffect_no_count props st Hz ltac:(lia)) as (s & Hs & _ & Hpc).
      rewrite (runs_det _ _ _ _ Hrun Hs), Hpc in HP. by case_bool_decide.
  - split; [done |].
    destruct (runs_finite props st st' Hnz Hrun) as (Hpc & _).
    congruence.
Qed.

(** The window in closed form.  With [current <= 5] it is 1 to
    [min(pageCount, 9)]; with five pages or more after [current] it is
    [current - 5] to [current + 4]; otherwise it is [max(1, pageCount - 10)]
    to [min(current + 4, pageCount)]. *)
Theorem window_closed_form props st :
  let c := local current props in
  let P := Spec.ceil_quot (local total props) (local page_size props) in
  local page_size props <> 0 ->
  exists st',
    runs props st st' /\
    pageArray st' = Some (Num <$>
      (if bool_decide (c <= 5) then seqZ 1 (Z.min P 9)
       else if bool_decide (c + 5 <= P) then seqZ (c - 5) 10
       else seqZ (Z.max 1 (P - 10)) (Z.min (c + 4) P - Z.max 1 (P - 10) + 1))).
Proof.
  intros c P Hps.
  pose proof (createEffect_finite props st Hps) as Hfin. cbv zeta in Hfin.
  eexists. split; [exact Hfin |]. cbn [pageArray]. unfold Spec.window. fold c P.
  rewrite edges_closed_form.
  repeat case_bool_decide; cbn [fst snd]; do 3 f_equal; lia.
Qed.

Lemma window_closed_form_witness :
  local page_size (props_of 15 10 300) <> 0 /\
  exists st',
    runs (props_of 15 10 300) initial st' /\
    pageArray st' = Some (Num <$> seqZ 10 10).
Proof.
  split; [vm_compute; discriminate |].
  apply (window_closed_form (props_of 15 10 300) initial).
  vm_compute; discriminate.
Defined.

(** With nine pages or fewer every page is linked, wherever [current] is. *)
Theorem window_all_pages_up_to_nine props st :
  let P := Spec.ceil_quot (local total props) (local page_size props) in
  local page_size props <> 0 -> P <= 9 ->
  exists st', runs props st st' /\ pageArray st' = Some (Num <$> seqZ 1 P).
Proof.
  intros P Hps HP.
  pose proof (createEffect_finite props st Hps) as Hfin. cbv zeta in Hfin.
  eexists. split; [exact Hfin |]. cbn [pageArray]. unfold Spec.window. fold P.
  rewrite edges_closed_form.
  repeat case_bool_decide; cbn [fst snd]; do 3 f_equal; lia.
Qed.

Lemma window_all_pages_up_to_nine_witness :
  local page_size (props_of 40 10 54) <> 0 /\
  Spec.ceil_quot (local total (props_of 40 10 54))
                 (local page_size (props_of 40 10 54)) <= 9 /\
  exists st',
    runs (props_of 40 10 54) initial st' /\
    pageArray st' = Some (Num <$> seqZ 1 6).
Proof.
  split; [vm_compute; discriminate |].
  split; [vm_compute; discriminate |].
  apply (window_all_pages_up_to_nine (props_of 40 10 54) initial);
    vm_compute; discriminate.
Defined.

(** The window has eleven entries exactly when there are eleven pages or
    more and [current] is within four pages of the last (or beyond it). *)
Theorem window_eleven_iff props st st' arr :
  let c := local current props in
  let P := Spec.ceil_quot (local total props) (local page_size props) in
  local page_size props <> 0 ->
  runs props st st' -> pageArray st' = Some arr ->
  (length arr = 11%nat <-> 11 <= P <= c + 4).
Proof.
  intros c P Hps Hrun Harr.
  destruct (runs_finite props st st' Hps Hrun) as (_ & _ & _ & Hw).
  fold c P in Hw. rewrite edges_closed_form, Harr in Hw. injection Hw as ->.
  rewrite length_fmap, length_seqZ.
  repeat case_bool_decide; cbn [fst snd]; lia.
Qed.

Lemma window_eleven_iff_witness :
  exists st' arr,
    local page_size (props_of 11 10 110) <> 0 /\
    runs (props_of 11 10 110) initial st' /\ pageArray st' = Some arr /\
    (length arr = 11%nat <->
     11 <= Spec.ceil_quot (local total (props_of 11 10 110))
                          (local page_size (props_of 11 10 110))
        <= local current (props_of 11 10 110) + 4).
Proof.
  eexists _, _.
  assert (Hrun : runs (props_of 11 10 110) initial
            {| pageCount := Num 11; beforeOffset := Num 6; left := Num 1;
               right := Num 11; afterOffset := Num (-5);
               pageArray := Some (Num <$> seqZ 1 11) |})
    by (exists 12%nat; reflexivity).
  split; [vm_compute; discriminate |].
  split; [exact Hrun |]. split; [reflexivity |].
  apply (window_eleven_iff (props_of 11 10 110) initial _ _
           ltac:(vm_compute; discriminate) Hrun eq_refl).
Defined.

(** A [current] that is one of the pages is among the links. *)
Theorem window_shows_current props st :
  let c := local current props in
  let P := Spec.ceil_quot (local total props) (local page_size props) in
  local page_size props <> 0 -> 1 <= c <= P ->
  exists st' arr,
    runs props st st' /\ pageArray st' = Some arr /\ Num c ∈ arr.
Proof.
  intros c P Hps Hc.
  pose proof (createEffect_finite props st Hps) as Hfin. cbv zeta in Hfin.
  eexists _, _. split; [exact Hfin |]. split; [done |].
  unfold Spec.window. fold c P.
  apply list_elem_of_fmap. exists c. split; [done |].
  apply elem_of_seqZ. rewrite edges_closed_form.
  repeat case_bool_decide; cbn [fst snd]; lia.
Qed.

Lemma window_shows_current_witness :
  local page_size (props_of 28 10 300) <> 0 /\
  1 <= local current (props_of 28 10 300)
    <= Spec.ceil_quot (local total (props_of 28 10 300))
                      (local page_size (props_of 28 10 300)) /\
  exists st' arr,
    runs (props_of 28 10 300) initial st' /\ pageArray st' = Some arr /\
    Num (local current (props_of 28 10 300)) ∈ arr.
Proof.
  split; [vm_compute; discriminate |].
  split; [vm_compute; split; discriminate |].
  apply (window_shows_current (props_of 28 10 300) initial).
  - vm_compute; discriminate.
  - vm_compute; split; discriminate.
Defined.

End WindowShape.

(** ** Degenerate descriptors *)

Section Degenerate.
Import Pagination.

Lemma ToInt32_periodic z k : ToInt32 (Num (z + k * 2 ^ 32)) = ToInt32 (Num z).
Proof. unfold ToInt32. by rewrite Z_mod_plus_full. Qed.

(** The effect reads each field modulo 2^32: descriptors whose fields
    differ by multiples of 2^32 leave the same state, hence the same
    window. *)
Theorem effect_reads_fields_modulo_2_32 fuel st c p t kc kp kt :
  createEffect fuel
    (props_of (c + kc * 2 ^ 32) (p + kp * 2 ^ 32) (t + kt * 2 ^ 32)) st =
  createEffect fuel (props_of c p t) st.
Proof.
  unfold createEffect, local, props_of, field. cbn [pagination fmap option_fmap option_map ToNumber current page_size total].
  by rewrite !bitor_0, !ToInt32_periodic.
Qed.

(** A page size of zero with items to show: the page count is infinite,
    the window runs from [max(1, current - 5)] to [current + 4] (to 9 when
    [current < 5]), and the next arrow calls the setter whatever
    [current] is. *)
Theorem zero_page_size_with_items props st :
  let c := local current props in
  local page_size props = 0 -> 0 < local total props ->
  exists st',
    runs props st st' /\
    pageCount st' = PosInf /\
    pageArray st' = Some (Num <$>
      seqZ (Z.max 1 (c - 5))
           ((if bool_decide (c < 5) then 9 else c + 4) - Z.max 1 (c - 5) + 1)) /\
    forall d, next_onClick st' {| pagination := Some d |} =
              Some (pageSetter "current" (Fn (fun p => p + 1))).
Proof.
  intros c Hps Ht.
  pose proof (createEffect_PosInf props st Hps Ht) as Hinf. cbv zeta in Hinf.
  eexists. split; [exact Hinf |]. split; [done |]. split; [| done].
  cbn [pageArray]. fold c. do 3 f_equal.
  repeat case_bool_decide; lia.
Qed.

Lemma zero_page_size_with_items_witness :
  local page_size (props_of 7 0 54) = 0 /\ 0 < local total (props_of 7 0 54) /\
  exists st',
    runs (props_of 7 0 54) initial st' /\
    pageCount st' = PosInf /\
    pageArray st' = Some (Num <$> seqZ 2 10) /\
    forall d, next_onClick st' {| pagination := Some d |} =
              Some (pageSetter "current" (Fn (fun p => p + 1))).
Proof.
  split; [reflexivity |]. split; [reflexivity |].
  apply (zero_page_size_with_items (props_of 7 0 54) initial); reflexivity.
Defined.

(** Without a descriptor the effect computes on zeros: the page count is
    NaN and no link is drawn; both guards then compare with [undefined]
    and fail, so neither arrow carries a style of its [classList], and
    each still calls the setter. *)
Theorem without_descriptor st :
  exists st',
    runs {| pagination := None |} st st' /\
    pageCount st' = NaN /\ pageArray st' = Some [] /\
    links st' {| pagination := None |} = [] /\
    applied (prev_classList {| pagination := None |}) = [] /\
    applied (next_classList st' {| pagination := None |}) = [] /\
    prev_onClick {| pagination := None |} =
      Some (pageSetter "current" (Fn (fun p => p - 1))) /\
    next_onClick st' {| pagination := None |} =
      Some (pageSetter "current" (Fn (fun p => p + 1))).
Proof.
  eexists. split; [by exists 1%nat |]. done.
Qed.

End Degenerate.

(** ** Arrows and links *)

Section Controls.
Import Pagination.

Lemma ltb_leb_false a b : ltb a b = true -> leb b a = false.
Proof.
  destruct a as [x | | |], b as [y | | |]; try done.
  rewrite ltb_Num, leb_Num. intros H%bool_decide_eq_true_1.
  apply bool_decide_eq_false_2. lia.
Qed.

Lemma applied_three k1 k2 k3 (b1 b2 : bool) :
  applied [(k1, b1); (k2, b2); (k3, b2)] =
    (if b1 then [k1] else []) ++ (if b2 then [k2; k3] else []).
Proof. by destruct b1, b2. Qed.

(** The next arrow is drawn from the [pageCount] of the moment it is
    rendered, and clicked with the one the effect has left since.  At the
    first rendering [pageCount] is still the 0 of its declaration: a
    descriptor with [0 <= current < pageCount] gets a next arrow that
    carries [fill-gray-200] alone, and whose click calls the setter. *)
Theorem next_arrow_grey_at_first_render d st' :
  runs {| pagination := Some d |} initial st' ->
  0 <= current d ->
  ltb (Num (current d)) (pageCount st') = true ->
  applied (next_classList_first_render {| pagination := Some d |}) =
    ["fill-gray-200"] /\
  next_onClick st' {| pagination := Some d |} =
    Some (pageSetter "current" (Fn (fun p => p + 1))).
Proof.
  intros _ Hcur Hlt. split.
  - unfold next_classList_first_render, next_classList, geb.
    change (ToNumber (field current {| pagination := Some d |}))
      with (Num (current d)).
    change (pageCount initial) with (Num 0).
    rewrite applied_three, leb_Num, ltb_Num.
    rewrite bool_decide_eq_true_2 by done.
    by rewrite bool_decide_eq_false_2 by lia.
  - unfold next_onClick, geb.
    change (ToNumber (field current {| pagination := Some d |}))
      with (Num (current d)).
    by rewrite (ltb_leb_false _ _ Hlt).
Qed.

Lemma next_arrow_grey_at_first_render_witness :
  let d := Descriptor 3 10 54 in
  let st' := {| pageCount := Num 6; beforeOffset := Num (-2); left := Num 1;
                right := Num 6; afterOffset := Num (-2);
                pageArray := Some (Num <$> [1; 2; 3; 4; 5; 6]) |} in
  runs {| pagination := Some d |} initial st' /\
  0 <= current d /\
  ltb (Num (current d)) (pageCount st') = true /\
  applied (next_classList_first_render {| pagination := Some d |}) =
    ["fill-gray-200"] /\
  next_onClick st' {| pagination := Some d |} =
    Some (pageSetter "current" (Fn (fun p => p + 1))).
Proof.
  intros d st'.
  assert (Hrun : runs {| pagination := Some d |} initial st')
    by (exists 7%nat; reflexivity).
  assert (Hcur : 0 <= current d) by (simpl; lia).
  split; [exact Hrun |]. split; [exact Hcur |]. split; [reflexivity |].
  exact (next_arrow_grey_at_first_render d st' Hrun Hcur eq_refl).
Defined.

Lemma applied_link n d :
  applied (item_classList (Num n) {| pagination := Some d |}) =
    if bool_decide (n = current d) then ["text-blue-500"]
    else ["text-gray-600 hover:text-blue-500"].
Proof.
  unfold item_classList, strict_eq, field. cbn [pagination fmap option_fmap option_map eqb].
  destruct (Z.eqb_spec n (current d)).
  - by rewrite bool_decide_eq_true_2.
  - by rewrite bool_decide_eq_false_2.
Qed.

(** When [current] is one of the pages (and a 32-bit integer), exactly one
    link is drawn in blue, the one of [current]; every other link carries
    the grey class. *)
Theorem one_link_highlighted d st st' P :
  - 2 ^ 31 <= current d < 2 ^ 31 ->
  runs {| pagination := Some d |} st st' ->
  pageCount st' = Num P ->
  1 <= current d <= P ->
  exists before after,
    links st' {| pagination := Some d |} =
      before ++ (Num (current d), ["text-blue-500"]) :: after /\
    Forall (fun link => link.2 = ["text-gray-600 hover:text-blue-500"])
           (before ++ after).
Proof.
  intros H32 Hrun HP Hcur.
  destruct (runs_Num_count _ _ _ _ Hrun HP) as [Hps HPeq].
  destruct (runs_finite _ _ _ Hps Hrun) as (_ & _ & _ & Hw).
  rewrite <- HPeq, local_int32 in Hw by done.
  set (c := current d) in *.
  set (l := (Spec.edges c P).1) in *. set (r := (Spec.edges c P).2) in *.
  assert (Hin : l <= c <= r).
  { subst l r. rewrite edges_closed_form.
    repeat case_bool_decide; cbn [fst snd]; lia. }
  assert (Hsplit : seqZ l (r - l + 1) =
                   seqZ l (c - l) ++ c :: seqZ (c + 1) (r - c)).
  { replace (r - l + 1) with ((c - l) + (r - c + 1)) by lia.
    rewrite seqZ_app by lia. f_equal.
    replace (l + (c - l)) with c by lia.
    rewrite seqZ_cons by lia. f_equal. f_equal; lia. }
  unfold links. rewrite Hw. cbn [default from_option]. unfold id. rewrite Hsplit.
  rewrite !fmap_app, !fmap_cons. cbv beta. rewrite applied_link.
  fold c. rewrite bool_decide_eq_true_2 by done.
  eexists _, _. split; [reflexivity |].
  apply Forall_app. split; rewrite <- list_fmap_compose;
    apply Forall_fmap, Forall_seqZ; intros n Hn; cbn [compose snd];
    rewrite applied_link; fold c; by rewrite bool_decide_eq_false_2 by lia.
Qed.

Lemma one_link_highlighted_witness :
  let d := Descriptor 3 10 54 in
  let st' := {| pageCount := Num 6; beforeOffset := Num (-2); left := Num 1;
                right := Num 6; afterOffset := Num (-2);
                pageArray := Some (Num <$> [1; 2; 3; 4; 5; 6]) |} in
  - 2 ^ 31 <= current d < 2 ^ 31 /\
  runs {| pagination := Some d |} initial st' /\
  pageCount st' = Num 6 /\
  1 <= current d <= 6 /\
  exists before after,
    links st' {| pagination := Some d |} =
      before ++ (Num (current d), ["text-blue-500"]) :: after /\
    Forall (fun link => link.2 = ["text-gray-600 hover:text-blue-500"])
           (before ++ after).
Proof.
  intros d st'.
  assert (H32 : - 2 ^ 31 <= current d < 2 ^ 31) by (simpl; lia).
  assert (Hrun : runs {| pagination := Some d |} initial st')
    by (exists 7%nat; reflexivity).
  assert (Hcur : 1 <= current d <= 6) by (simpl; lia).
  split; [exact H32 |]. split; [exact Hrun |]. split; [reflexivity |].
  split; [exact Hcur |].
  exact (one_link_highlighted d initial st' 6 H32 Hrun eq_refl Hcur).
Defined.

(** Navigation keeps [current] a page: from a descriptor whose [current]
    lies in [1 .. pageCount], a click on either arrow or on any link of
    the window leaves [current] in that range, and the other two fields
    as they were. *)
Theorem navigation_keeps_current_a_page d st st' P :
  runs {| pagination := Some d |} st st' ->
  pageCount st' = Num P ->
  1 <= current d <= P ->
  let stays d' :=
    1 <= current d' <= P /\ page_size d' = page_size d /\ total d' = total d in
  stays (after_click (prev_onClick {| pagination := Some d |}) d) /\
  stays (after_click (next_onClick st' {| pagination := Some d |}) d) /\
  forall item, item ∈ default [] (pageArray st') ->
    stays (after_click (item_onClick item) d).
Proof.
  intros Hrun HP Hcur stays. subst stays. cbv beta.
  unfold prev_onClick, next_onClick, geb.
  change (ToNumber (field current {| pagination := Some d |}))
    with (Num (current d)).
  rewrite HP, !leb_Num.
  split; [case_bool_decide; cbn; lia |].
  split; [case_bool_decide; cbn; lia |].
  intros item Hitem.
  destruct (effect_outcome {| pagination := Some d |} st)
    as (s & l & len & Hs & _ & Harr & Hl & _ & Hpos & _).
  rewrite (runs_det _ _ _ _ Hrun Hs) in *. rewrite Harr in Hitem.
  cbn [default] in Hitem.
  apply list_elem_of_fmap in Hitem as (n & -> & [Hn1 Hn2]%elem_of_seqZ).
  destruct (Hpos ltac:(lia)) as (_ & _ & Hle).
  rewrite HP, leb_Num in Hle. apply bool_decide_eq_true_1 in Hle.
  cbn. lia.
Qed.

Lemma navigation_keeps_current_a_page_witness :
  let d := Descriptor 6 10 54 in
  let st' := {| pageCount := Num 6; beforeOffset := Num 1; left := Num 1;
                right := Num 6; afterOffset := Num (-5);
                pageArray := Some (Num <$> [1; 2; 3; 4; 5; 6]) |} in
  runs {| pagination := Some d |} initial st' /\
  pageCount st' = Num 6 /\
  1 <= current d <= 6 /\
  after_click (prev_onClick {| pagination := Some d |}) d = Descriptor 5 10 54 /\
  after_click (next_onClick st' {| pagination := Some d |}) d = d /\
  1 <= current (after_click (item_onClick (Num 2)) d) <= 6.
Proof.
  intros d st'.
  assert (Hrun : runs {| pagination := Some d |} initial st')
    by (exists 7%nat; reflexivity).
  assert (Hcur : 1 <= current d <= 6) by (simpl; lia).
  split; [exact Hrun |]. split; [reflexivity |]. split; [exact Hcur |].
  split; [reflexivity |]. split; [reflexivity |].
  exact (proj1 (proj2 (proj2
    (navigation_keeps_current_a_page d initial st' 6 Hrun eq_refl Hcur))
    (Num 2) ltac:(cbn; apply list_elem_of_In; simpl; tauto))).
Defined.

End Controls.

(** ** The dataset *)

Section DatasetFacts.

Lemma is_digit_pretty_N_char x : is_digit (pretty_N_char x) = true.
Proof.
  destruct x as [| p]; [done |].
  do 4 (try (destruct p as [p | p |]; try reflexivity)).
Qed.

Lemma pretty_N_go_decimal x : forall s,
  decimal s = true -> decimal (pretty_N_go x s) = true.
Proof.
  induction (N.lt_wf_0 x) as [x _ IH]; intros s Hs.
  destruct (decide (x = 0)%N) as [-> | Hx]; [by rewrite pretty_N_go_0 |].
  rewrite pretty_N_go_step by lia. apply IH.
  - apply N.div_lt; lia.
  - simpl. by rewrite is_digit_pretty_N_char, Hs.
Qed.

Lemma pretty_nat_decimal (i : nat) : decimal (pretty i) = true.
Proof.
  unfold pretty, pretty_nat, pretty, pretty_N.
  case_decide; [done |]. by apply pretty_N_go_decimal.
Qed.

Lemma pretty_nat_not_a_name (i : nat) k : decimal k = false -> k <> pretty i.
Proof. intros Hk ->. by rewrite pretty_nat_decimal in Hk. Qed.

Context `{!Assets}.

Lemma obj_unfold i :
  Mock.obj i =
    <["hel" := xs]> (<["hello" := xs]> (<[pretty i := xs]>
      (<["s" := s]> (<["origin" := origin]> (<["middle" := m]> ∅))))).
Proof. reflexivity. Qed.

(** Each object of the dataset has six keys: the five names and the
    decimal of its index, which collides with none of them. *)
Theorem obj_keys i :
  size (Mock.obj i) = 6%nat /\
  Mock.obj i !! "middle" = Some m /\
  Mock.obj i !! "origin" = Some origin /\
  Mock.obj i !! "s" = Some s /\
  Mock.obj i !! pretty i = Some xs /\
  Mock.obj i !! "hello" = Some xs /\
  Mock.obj i !! "hel" = Some xs.
Proof.
  pose proof (pretty_nat_not_a_name i "middle" eq_refl) as H1.
  pose proof (pretty_nat_not_a_name i "origin" eq_refl) as H2.
  pose proof (pretty_nat_not_a_name i "s" eq_refl) as H3.
  pose proof (pretty_nat_not_a_name i "hello" eq_refl) as H4.
  pose proof (pretty_nat_not_a_name i "hel" eq_refl) as H5.
  rewrite obj_unfold. split.
  - rewrite !map_size_insert_None, map_size_empty; [done | ..];
      by simplify_map_eq.
  - repeat split; by simplify_map_eq.
Qed.

(** A decimal key other than its own index is absent from an object. *)
Lemma obj_lookup_decimal i k :
  decimal k = true -> k <> pretty i -> Mock.obj i !! k = None.
Proof.
  intros Hk Hne. rewrite obj_unfold.
  assert (k <> "hel") by (intros ->; done).
  assert (k <> "hello") by (intros ->; done).
  assert (k <> "s") by (intros ->; done).
  assert (k <> "origin") by (intros ->; done).
  assert (k <> "middle") by (intros ->; done).
  by simplify_map_eq.
Qed.

Lemma obj_lookup_own i : Mock.obj i !! pretty i = Some xs.
Proof.
  pose proof (pretty_nat_not_a_name i "hello" eq_refl).
  pose proof (pretty_nat_not_a_name i "hel" eq_refl).
  rewrite obj_unfold. by simplify_map_eq.
Qed.

Lemma obj_inj i j : Mock.obj i = Mock.obj j -> i = j.
Proof.
  intros Heq. destruct (decide (pretty i = pretty j)) as [Hp | Hp].
  - by apply (inj pretty) in Hp.
  - pose proof (obj_lookup_own i) as Hi.
    rewrite Heq, obj_lookup_decimal in Hi; [done | | done].
    apply pretty_nat_decimal.
Qed.

(** An object sits at one index only. *)
Lemma fill_lookup_inj n i j x :
  Mock.fill n !! i = Some x -> Mock.fill n !! j = Some x -> i = j.
Proof.
  intros Hi Hj.
  pose proof (lookup_lt_Some _ _ _ Hi) as Hli.
  pose proof (lookup_lt_Some _ _ _ Hj) as Hlj.
  rewrite length_fill in Hli, Hlj.
  rewrite lookup_fill in Hi, Hj by done.
  apply obj_inj. congruence.
Qed.

(** The dataset never holds the same object twice, whatever its size. *)
Theorem dataset_has_no_duplicate n : NoDup (Mock.fill n).
Proof.
  apply NoDup_alt. intros i j x Hi Hj.
  by apply (fill_lookup_inj n i j x).
Qed.

End DatasetFacts.

(** ** Pages of the dataset *)

Section Pages.
Context `{!Assets}.

Lemma page_segment n current :
  ListResponse.list (Mock.listPicturesOk_of n current) =
    take (Z.to_nat ((current - 1) * 10 + 10 - Z.max ((current - 1) * 10) 0))
         (drop (Z.to_nat ((current - 1) * 10)) (Mock.fill n)).
Proof. by rewrite listPicturesOk_of_list, items_between_segment. Qed.

(** A page never holds more than ten items; from page 1 on it holds ten,
    or what is left of the dataset past the pages before it. *)
Theorem page_length n current :
  (length (ListResponse.list (Mock.listPicturesOk_of n current)) <= 10)%nat /\
  (1 <= current ->
   length (ListResponse.list (Mock.listPicturesOk_of n current)) =
     Z.to_nat (Z.min 10 (Z.of_nat n - 10 * (current - 1)))).
Proof.
  rewrite page_segment, length_take, length_drop, length_fill. lia.
Qed.

(** A page has an item exactly when [current >= 1] and the pages before it
    do not exhaust the dataset. *)
Theorem page_nonempty_iff n current :
  ListResponse.list (Mock.listPicturesOk_of n current) <> [] <->
  1 <= current /\ 10 * (current - 1) < Z.of_nat n.
Proof.
  rewrite <- length_zero_iff_nil.
  rewrite page_segment, length_take, length_drop, length_fill. lia.
Qed.

(** Item [k] of page [current] is the object pushed at iteration
    [10 * (current - 1) + k] of the filling loop, for [k < 10] and as long
    as the dataset reaches that far. *)
Theorem page_item_lookup n current k :
  1 <= current ->
  ListResponse.list (Mock.listPicturesOk_of n current) !! k =
    if bool_decide (k < 10 /\ Z.to_nat (10 * (current - 1)) + k < n)%nat
    then Some (Mock.obj (Z.to_nat (10 * (current - 1)) + k))
    else None.
Proof.
  intros Hcur. rewrite page_segment.
  replace (Z.to_nat ((current - 1) * 10 + 10 - Z.max ((current - 1) * 10) 0))
    with 10%nat by lia.
  replace (Z.to_nat ((current - 1) * 10))
    with (Z.to_nat (10 * (current - 1))) by lia.
  case_bool_decide as Hk.
  - rewrite lookup_take_lt, lookup_drop by lia. apply lookup_fill. lia.
  - destruct (decide (k < 10)%nat).
    + rewrite lookup_take_lt, lookup_drop by lia.
      apply lookup_ge_None. rewrite length_fill. lia.
    + apply lookup_take_ge. lia.
Qed.

Lemma pages_concat_take n k :
  concat ((fun c : nat =>
             ListResponse.list (Mock.listPicturesOk_of n (Z.of_nat c)))
          <$> seq 1 k) =
    take (10 * k) (Mock.fill n).
Proof.
  induction k as [| k IH]; [done |].
  rewrite seq_S, fmap_app, concat_app, IH.
  cbn [fmap list_fmap concat]. cbv beta.
  rewrite app_nil_r, page_segment.
  replace (Z.to_nat ((Z.of_nat (1 + k) - 1) * 10 + 10
                     - Z.max ((Z.of_nat (1 + k) - 1) * 10) 0))
    with 10%nat by lia.
  replace (Z.to_nat ((Z.of_nat (1 + k) - 1) * 10)) with (10 * k)%nat by lia.
  rewrite take_take_drop. f_equal. lia.
Qed.

(** The pages put end to end give back the dataset: pages 1 to [k], in
    order, as soon as [10 * k] reaches its size. *)
Theorem pages_concat_dataset n k :
  (n <= 10 * k)%nat ->
  concat ((fun c : nat =>
             ListResponse.list (Mock.listPicturesOk_of n (Z.of_nat c)))
          <$> seq 1 k) =
    Mock.fill n.
Proof.
  intros Hk. rewrite pages_concat_take.
  apply take_ge. by rewrite length_fill.
Qed.

Lemma page_elem_index n current x :
  x ∈ ListResponse.list (Mock.listPicturesOk_of n current) ->
  exists i, 1 <= current /\
            10 * (current - 1) <= Z.of_nat i < 10 * (current - 1) + 10 /\
            Mock.fill n !! i = Some x.
Proof.
  intros Hx.
  assert (Hcur : 1 <= current).
  { destruct (decide (1 <= current)); [done |].
    assert (Hnil : ListResponse.list (Mock.listPicturesOk_of n current) = [])
      by (apply length_zero_iff_nil;
          rewrite page_segment, length_take, length_drop, length_fill; lia).
    rewrite Hnil in Hx. by apply elem_of_nil in Hx. }
  apply list_elem_of_lookup in Hx as [k Hk].
  rewrite page_segment in Hk.
  apply lookup_take_Some in Hk as [Hk Hlt]. rewrite lookup_drop in Hk.
  eexists. split; [done |]. split; [| exact Hk]. lia.
Qed.

(** No object is on two pages. *)
Theorem pages_share_no_item n c1 c2 x :
  c1 <> c2 ->
  x ∈ ListResponse.list (Mock.listPicturesOk_of n c1) ->
  x ∉ ListResponse.list (Mock.listPicturesOk_of n c2).
Proof.
  intros Hne (i & H1 & Hi & Hxi)%page_elem_index (j & H2 & Hj & Hxj)%page_elem_index.
  pose proof (fill_lookup_inj n i j x Hxi Hxj). lia.
Qed.

(** The descriptor a page comes with, handed to the pagination control:
    the page count is [ceil(length / 10)], and every page the window
    links to has at least one item, whatever [current] was asked. *)
Theorem linked_pages_have_pictures n current st :
  Z.of_nat n < 2 ^ 31 ->
  exists st',
    Pagination.runs
      {| Pagination.pagination :=
           Some (ListResponse.pagination (Mock.listPicturesOk_of n current)) |}
      st st' /\
    Pagination.pageCount st' = Num (Spec.ceil_quot (Z.of_nat n) 10) /\
    forall p, Num p ∈ default [] (Pagination.pageArray st') ->
      ListResponse.list (Mock.listPicturesOk_of n p) <> [].
Proof.
  intros Hn.
  set (props := {| Pagination.pagination :=
    Some (ListResponse.pagination (Mock.listPicturesOk_of n current)) |}).
  assert (Hps : Pagination.local Pagination.page_size props = 10) by done.
  assert (Ht : Pagination.local Pagination.total props = Z.of_nat n)
    by (apply local_int32; simpl; lia).
  destruct (effect_outcome props st)
    as (st' & l & len & Hrun & Hpc & Harr & Hl & _ & Hpos & _).
  rewrite Hps, Ht, Math_ceil_div in Hpc by done.
  exists st'. split; [done |]. split; [done |].
  intros p Hp. rewrite Harr in Hp. cbn [default from_option] in Hp. unfold id in Hp.
  apply list_elem_of_fmap in Hp as (q & [= <-] & [Hq1 Hq2]%elem_of_seqZ).
  destruct (Hpos ltac:(lia)) as (_ & _ & Hle).
  rewrite Hpc, leb_Num in Hle. apply bool_decide_eq_true_1 in Hle.
  pose proof (proj1 (ceil_quot_spec (Z.of_nat n) 10 _ ltac:(lia)) eq_refl).
  rewrite <- length_zero_iff_nil.
  rewrite page_segment, length_take, length_drop, length_fill. lia.
Qed.

End Pages.

Section PagesConcrete.

Lemma page_item_lookup_witness :
  1 <= 6 /\
  ListResponse.list (@Mock.listPicturesOk_of dev_assets 54 6) !! 3%nat =
    Some (@Mock.obj dev_assets 53).
Proof.
  split; [lia |].
  exact (@page_item_lookup dev_assets 54 6 3 ltac:(lia)).
Defined.

Lemma pages_concat_dataset_witness :
  (54 <= 10 * 6)%nat /\
  concat ((fun c : nat =>
             ListResponse.list (@Mock.listPicturesOk_of dev_assets 54 (Z.of_nat c)))
          <$> seq 1 6) =
    @Mock.resolves dev_assets.
Proof.
  split; [lia |].
  exact (@pages_concat_dataset dev_assets 54 6 ltac:(lia)).
Defined.

Lemma pages_share_no_item_witness :
  (2 : Z) <> 3 /\
  @Mock.obj dev_assets 12 ∈ ListResponse.list (@Mock.listPicturesOk_of dev_assets 54 2) /\
  @Mock.obj dev_assets 12 ∉ ListResponse.list (@Mock.listPicturesOk_of dev_assets 54 3).
Proof.
  assert (Hin : @Mock.obj dev_assets 12
                  ∈ ListResponse.list (@Mock.listPicturesOk_of dev_assets 54 2)).
  { apply list_elem_of_lookup. exists 2%nat. rewrite page_segment.
    rewrite lookup_take_lt, lookup_drop by (simpl; lia).
    apply lookup_fill. simpl. lia. }
  split; [lia |]. split; [exact Hin |].
  exact (@pages_share_no_item dev_assets 54 2 3 _ ltac:(lia) Hin).
Defined.

Lemma linked_pages_have_pictures_witness :
  Z.of_nat 54 < 2 ^ 31 /\
  exists st',
    Pagination.runs
      {| Pagination.pagination :=
           Some (ListResponse.pagination (@Mock.listPicturesOk_of dev_assets 54 3)) |}
      Pagination.initial st' /\
    Pagination.pageCount st' = Num (Spec.ceil_quot (Z.of_nat 54) 10) /\
    forall p, Num p ∈ default [] (Pagination.pageArray st') ->
      ListResponse.list (@Mock.listPicturesOk_of dev_assets 54 p) <> [].
Proof.
  split; [reflexivity |].
  apply (@linked_pages_have_pictures dev_assets 54 3 Pagination.initial).
  reflexivity.
Defined.

End PagesConcrete.
